(** * Verification of scripts/build-tokens.js (token list generator)

    Shallow embedding of the documentation build script: the threshold
    rounding helper [doRounding], the synth describer [desc], the markdown
    blocks of each asset section, the two sorts of the token list and the
    fail-fast build that writes [content/tokens/list.md]. *)

From Stdlib Require Import ZArith Lia Sorting.Permutation Sorting.Sorted.
From stdpp Require Import base list gmap strings.
From Stdlib Require Import String Ascii.

Open Scope string_scope.

(* ------------------------------------------------------------------ *)
(** ** JavaScript string primitives used by the script *)

Module Js.

(** [s.split(sep)] for a one-character separator. *)
Fixpoint split (sep : ascii) (s : string) : list string :=
  match s with
  | EmptyString => [""]
  | String c rest =>
      let parts := split sep rest in
      if Ascii.eqb c sep then "" :: parts
      else match parts with
           | p :: ps => String c p :: ps
           | [] => [String c ""]
           end
  end.

(** [parts.join(sep)]. *)
Fixpoint join (sep : string) (parts : list string) : string :=
  match parts with
  | [] => ""
  | [p] => p
  | p :: ps => p +:+ sep +:+ join sep ps
  end.

(** [s.toLowerCase()] on the ASCII strings of the model. *)
Definition lower_char (c : ascii) : ascii :=
  let n := nat_of_ascii c in
  if (65 <=? n)%nat && (n <=? 90)%nat then ascii_of_nat (n + 32) else c.

Fixpoint toLowerCase (s : string) : string :=
  match s with
  | EmptyString => EmptyString
  | String c rest => String (lower_char c) (toLowerCase rest)
  end.

(** JavaScript's [a > b] on strings: lexicographic order of code units. *)
Definition str_gt (a b : string) : bool := negb (String.leb a b).

(** Whether the character [c] occurs in [s]. *)
Fixpoint has_char (c : ascii) (s : string) : bool :=
  match s with
  | EmptyString => false
  | String d rest => Ascii.eqb d c || has_char c rest
  end.

End Js.

(* ------------------------------------------------------------------ *)
(** ** JavaScript numbers

    The script only multiplies, subtracts, prints ([String(x)] / template
    interpolation) and calls [toFixed] on numbers; these operations form the
    interface below. [Z] is an instance that is exact for integer-valued
    numbers in the safe-integer range (|x| < 2^53), where IEEE-754 doubles
    add, subtract and multiply without rounding and [String(x)] is the plain
    decimal numeral. [Dec.t] (below) is an instance for fractional numbers:
    finite decimals, exact on the doubles that are short decimals. *)

Class JsNumber (N : Type) := {
  js_mul : N -> N -> N;
  js_sub : N -> N -> N;
  js_two : N;
  js_toString : N -> string;
  js_toFixed : N -> nat -> string
}.

Module ZNum.

Definition digit_char (d : N) : ascii := ascii_of_N (48 + d).

Fixpoint digits_go (fuel : nat) (n : N) (acc : string) : string :=
  match fuel with
  | O => acc
  | S f =>
      let acc' := String (digit_char (n mod 10)) acc in
      if (n <? 10)%N then acc' else digits_go f (n / 10)%N acc'
  end.

Definition N_to_string (n : N) : string := digits_go (S (N.size_nat n)) n "".

(** [String(z)] for a safe integer. *)
Definition to_string (z : Z) : string :=
  if (z <? 0)%Z then "-" +:+ N_to_string (Z.abs_N z) else N_to_string (Z.to_N z).

Fixpoint zeros (d : nat) : string :=
  match d with O => "" | S k => String "0" (zeros k) end.

(** [z.toFixed(d)] for a safe integer: the numeral padded with [d] zeros. *)
Definition to_fixed (z : Z) (d : nat) : string :=
  match d with
  | O => to_string z
  | S _ => to_string z +:+ "." +:+ zeros d
  end.

Definition safe (z : Z) : Prop := (Z.abs z < 2 ^ 53)%Z.

End ZNum.

#[export] Instance JsNumber_Z : JsNumber Z := {
  js_mul := Z.mul;
  js_sub := Z.sub;
  js_two := 2%Z;
  js_toString := ZNum.to_string;
  js_toFixed := ZNum.to_fixed
}.

(** Finite decimals [m / 10^k]. The instance is exact on the numbers of
    [Dec.faithful]: values that are doubles exactly (dyadic: [5^k] divides
    [m]), with at most 15 significant digits and at most 6 decimals, such as
    4.5, 2.25 or 0.125 (but not 0.1, which no double equals). For them:
    - a double product or difference whose exact value is again such a
      number is computed without rounding (IEEE-754 rounds the exact result,
      which is representable);
    - [String(x)] (Number::toString) is the shortest decimal that reads back
      as [x]; with at most 15 significant digits no other such decimal
      denotes the same double, so it is the exact decimal with its trailing
      zeros dropped, in plain notation since 1e-6 <= |x| < 1e21;
    - [x.toFixed(f)] takes the sign of [x] apart, then picks the integer
      [n] with [n / 10^f - |x|] closest to zero, the larger one on a tie,
      and prints [n] with [f] decimals (a leading "0" when [n < 10^f]).
    Zero is the positive zero. *)
Module Dec.

Record t := mk { mant : Z; scale : nat }.

Definition mul (x y : t) : t := mk (mant x * mant y) (scale x + scale y).

Definition sub (x y : t) : t :=
  let k := Nat.max (scale x) (scale y) in
  mk (mant x * 10 ^ Z.of_nat (k - scale x) - mant y * 10 ^ Z.of_nat (k - scale y)) k.

(** Drop the trailing zeros of the decimal expansion. *)
Fixpoint normalize_go (k : nat) (m : Z) : t :=
  match k with
  | O => mk m 0
  | S k' => if (m mod 10 =? 0)%Z then normalize_go k' (m / 10) else mk m k
  end.

Definition normalize (x : t) : t := normalize_go (scale x) (mant x).

(** The [d] lowest decimal digits of [n], leading zeros included. *)
Fixpoint low_digits (d : nat) (n : N) : string :=
  match d with
  | O => ""
  | S d' => low_digits d' (n / 10)%N +:+ String (ZNum.digit_char (n mod 10)%N) ""
  end.

(** The natural number [n] read as [n / 10^d] and printed with [d] decimals. *)
Definition fixed_digits (n : N) (d : nat) : string :=
  match d with
  | O => ZNum.N_to_string n
  | S _ => ZNum.N_to_string (n / 10 ^ N.of_nat d)%N +:+ "." +:+ low_digits d n
  end.

Definition print_signed (neg : bool) (n : N) (d : nat) : string :=
  (if neg then "-" else "") +:+ fixed_digits n d.

(** [String(x)] *)
Definition to_string (x : t) : string :=
  let y := normalize x in
  print_signed (mant y <? 0)%Z (Z.abs_N (mant y)) (scale y).

(** The integer [n] of [toFixed]: [|x| * 10^d] rounded to the nearest
    integer, a tie going up. *)
Definition round_abs (x : t) (d : nat) : Z :=
  let a := Z.abs (mant x) in
  if (scale x <=? d)%nat then (a * 10 ^ Z.of_nat (d - scale x))%Z
  else let D := (10 ^ Z.of_nat (scale x - d))%Z in ((2 * a + D) / (2 * D))%Z.

(** [x.toFixed(d)] *)
Definition to_fixed (x : t) (d : nat) : string :=
  print_signed (mant x <? 0)%Z (Z.to_N (round_abs x d)) d.


End Dec.

#[export] Instance JsNumber_Dec : JsNumber Dec.t := {
  js_mul := Dec.mul;
  js_sub := Dec.sub;
  js_two := Dec.mk 2 0;
  js_toString := Dec.to_string;
  js_toFixed := Dec.to_fixed
}.

(* ------------------------------------------------------------------ *)
(** ** [doRounding] (build-tokens.js, lines 11-17) *)

Section Rounding.
Context {N : Type} `{JsNumber N}.

(** [(limit.toString().split('.')[1] || '').length] *)
Definition fraction_digits (limit : N) : nat :=
  String.length (nth 1 (Js.split "." (js_toString limit)) "").

Definition doRounding (entry limit : N) : string :=
  let num := js_sub (js_mul entry js_two) limit in
  let decimals := fraction_digits limit in
  js_toFixed num decimals.

End Rounding.

(* ------------------------------------------------------------------ *)
(** ** Synth records and the describer [desc] (lines 19-54) *)

Record InversionParams (N : Type) := mkInversion {
  entryPoint : N;
  upperLimit : N;
  lowerLimit : N
}.
Arguments mkInversion {N}.
Arguments entryPoint {N}.
Arguments upperLimit {N}.
Arguments lowerLimit {N}.

(** One element of [synth.index]: [{ symbol, name, units }]. *)
Record IndexComponent (N : Type) := mkComponent {
  comp_symbol : string;
  comp_name : string;
  comp_units : N
}.
Arguments mkComponent {N}.
Arguments comp_symbol {N}.
Arguments comp_name {N}.
Arguments comp_units {N}.

(** A synth of the registry; [inverted] and [index] are absent on most. *)
Record Synth (N : Type) := mkSynth {
  synth_name : string;
  synth_desc : string;
  synth_asset : string;
  synth_inverted : option (InversionParams N);
  synth_index : option (list (IndexComponent N))
}.
Arguments mkSynth {N}.
Arguments synth_name {N}.
Arguments synth_desc {N}.
Arguments synth_asset {N}.
Arguments synth_inverted {N}.
Arguments synth_index {N}.

(** [s.replace(/^Inverted /, '')] *)
Definition strip_inverted (s : string) : string :=
  if String.prefix "Inverted " s
  then substring 9 (String.length s - 9) s
  else s.

Section Describer.
Context {N : Type} `{JsNumber N}.

Definition stable_sentence : string :=
  "Tracks the price of a single US Dollar (USD). This Synth always remains constant at 1.".

Definition asset_suffix (synth : Synth N) (underlying : string) : string :=
  if negb (String.eqb (synth_name synth) underlying)
  then " (" +:+ synth_asset synth +:+ ")" else "".

Definition inverted_sentence (synth : Synth N) (p : InversionParams N) : string :=
  let underlying := strip_inverted (synth_desc synth) in
  let assetSuffix := asset_suffix synth underlying in
  "Inversely tracks the price of " +:+ underlying +:+ assetSuffix +:+
  " through price feeds supplied by an oracle. " +:+
  "The entry point is \$" +:+ js_toString (entryPoint p) +:+
  " (the approximate market price at time of creation). " +:+
  "This Synth freezes when it reaches its upper limit of \$" +:+
  js_toString (upperLimit p) +:+ " (i.e. when " +:+ underlying +:+ "'s " +:+
  "value reaches \$" +:+ doRounding (entryPoint p) (upperLimit p) +:+
  ") or its lower limit of \$" +:+ js_toString (lowerLimit p) +:+
  " (i.e. when " +:+ underlying +:+ "’s value " +:+
  "reaches \$" +:+ doRounding (entryPoint p) (lowerLimit p) +:+
  "). If it reaches either of its limits and gets frozen, it will no longer be " +:+
  "able to be purchased on Synthetix.Exchange, but can still be traded for other Synths at its frozen " +:+
  "value. At some point after it has reached either of its limits, it will be substituted for another " +:+
  synth_name synth +:+ " with different limits.".

Definition component_text (c : IndexComponent N) : string :=
  js_toString (comp_units c) +:+ " of " +:+ comp_symbol c +:+
  (if negb (String.eqb (comp_name c) (comp_symbol c))
   then " (" +:+ comp_name c +:+ ")" else "").

Definition index_sentence (synth : Synth N) (comps : list (IndexComponent N)) : string :=
  let underlying := strip_inverted (synth_desc synth) in
  "Tracks the price of the index: " +:+ underlying +:+ asset_suffix synth underlying +:+
  " through price feeds supplied by an oracle. " +:+
  "This index is made up of the following assets and weights: " +:+
  Js.join ", " (map component_text comps) +:+ ".".

Definition plain_sentence (synth : Synth N) : string :=
  let underlying := strip_inverted (synth_desc synth) in
  "Tracks the price of " +:+ underlying +:+ asset_suffix synth underlying +:+
  " through price feeds supplied by an oracle.".

Definition desc (synth : Synth N) : string :=
  if String.eqb (synth_name synth) "sUSD" then stable_sentence
  else match synth_inverted synth with
       | Some p => inverted_sentence synth p
       | None =>
           match synth_index synth with
           | Some comps => index_sentence synth comps
           | None => plain_sentence synth
           end
       end.

End Describer.


(* ------------------------------------------------------------------ *)
(** ** Characters that cannot be written inside a string literal *)

Definition NL : string := String (ascii_of_nat 10) "".
Definition QUOTE : string := String (ascii_of_nat 34) "".

(* ------------------------------------------------------------------ *)
(** ** [Array.prototype.sort] with a comparator

    Insertion sort as the engine runs it on short arrays: every element,
    from left to right, is placed after the elements of the sorted prefix
    it does not compare below ([comparefn(pivot, y) >= 0]). *)

Section JsSort.
Context {A : Type} (comparefn : A -> A -> Z).

Fixpoint sort_insert (x : A) (sorted : list A) : list A :=
  match sorted with
  | [] => [x]
  | y :: ys => if (0 <=? comparefn x y)%Z then y :: sort_insert x ys else x :: y :: ys
  end.

Definition js_sort (l : list A) : list A :=
  fold_left (fun acc x => sort_insert x acc) l [].

End JsSort.

(* ------------------------------------------------------------------ *)
(** ** Token entries and the tokens of the page (lines 58-68) *)

(** An entry of [snx.getTokens({ network })]. The registry's entries carry
    their own [name]; [entry_name = None] is an entry without one, which
    then takes [entry.desc] through [Object.assign]. *)
Record TokenEntry (N : Type) := mkEntry {
  entry_symbol : string;
  entry_asset : string;
  entry_name : option string;
  entry_desc : string;
  entry_address : string;
  entry_decimals : N;
  entry_index : option (list (IndexComponent N));
  entry_inverted : option (InversionParams N);
  entry_feed : option string
}.
Arguments mkEntry {N}.
Arguments entry_symbol {N}.
Arguments entry_asset {N}.
Arguments entry_name {N}.
Arguments entry_desc {N}.
Arguments entry_address {N}.
Arguments entry_decimals {N}.
Arguments entry_index {N}.
Arguments entry_inverted {N}.
Arguments entry_feed {N}.

(** [Object.assign({ name: entry.desc, description }, entry)] *)
Record Token (N : Type) := mkToken {
  tok_name : string;
  tok_description : string;
  tok_symbol : string;
  tok_asset : string;
  tok_address : string;
  tok_decimals : N;
  tok_index : option (list (IndexComponent N));
  tok_inverted : option (InversionParams N);
  tok_feed : option string
}.
Arguments mkToken {N}.
Arguments tok_name {N}.
Arguments tok_description {N}.
Arguments tok_symbol {N}.
Arguments tok_asset {N}.
Arguments tok_address {N}.
Arguments tok_decimals {N}.
Arguments tok_index {N}.
Arguments tok_inverted {N}.
Arguments tok_feed {N}.

(** Exceptions thrown by the script; the only one it can raise is the
    [TypeError] of reading a property of [undefined]. *)
Inductive JsError := TypeError (message : string).

Inductive Result (A : Type) :=
| Ok (a : A)
| Throw (e : JsError).
Arguments Ok {A}.
Arguments Throw {A}.

Definition bind {A B} (r : Result A) (k : A -> Result B) : Result B :=
  match r with Ok a => k a | Throw e => Throw e end.

Notation "x <- r ;; k" := (bind r (fun x => k))
  (at level 100, r at next level, right associativity).

(** [Array.prototype.map] with a callback that may throw: elements are
    processed from left to right and the first exception propagates. *)
Fixpoint map_throw {A B} (f : A -> Result B) (l : list A) : Result (list B) :=
  match l with
  | [] => Ok []
  | x :: xs => y <- f x ;; ys <- map_throw f xs ;; Ok (y :: ys)
  end.

Definition snx_description : string :=
  "The Synthetix Network Token (SNX) gets staked as collateral to back Synths and entitles stakers to receive fees generated by Synth trades on Synthetix.Exchange.".

(** The exception of [desc(undefined)]. *)
Definition read_desc_error : JsError :=
  TypeError "Cannot read properties of undefined (reading 'desc')".

Section Pipeline.
Context {N : Type} `{JsNumber N}.

(** [synths.find(s => s.name === entry.symbol)] *)
Definition find_synth (synths : list (Synth N)) (symbol : string) : option (Synth N) :=
  List.find (fun s => String.eqb (synth_name s) symbol) synths.

(** [desc(synth)] where [synth] may be [undefined]: the first statement of
    [desc] reads [synth.desc]. *)
Definition desc_of_found (synth : option (Synth N)) : Result string :=
  match synth with
  | Some s => Ok (desc s)
  | None => Throw read_desc_error
  end.

(** The callback of [getTokens(...).map] (lines 60-67). *)
Definition token_of_entry (synths : list (Synth N)) (entry : TokenEntry N) : Result (Token N) :=
  let synth := find_synth synths (entry_symbol entry) in
  description <-
    (if String.eqb (entry_symbol entry) "SNX" then Ok snx_description
     else desc_of_found synth) ;;
  Ok (mkToken (default (entry_desc entry) (entry_name entry)) description
        (entry_symbol entry) (entry_asset entry) (entry_address entry)
        (entry_decimals entry) (entry_index entry) (entry_inverted entry)
        (entry_feed entry)).

Definition cmp_asset (a b : Token N) : Z :=
  if Js.str_gt (tok_asset a) (tok_asset b) then 1%Z else (-1)%Z.

Definition cmp_name (a b : Token N) : Z :=
  if Js.str_gt (tok_name a) (tok_name b) then 1%Z else (-1)%Z.

(** [const tokens = snx.getTokens(...).map(...).sort(by asset)] *)
Definition tokens_of (synths : list (Synth N)) (entries : list (TokenEntry N))
  : Result (list (Token N)) :=
  mapped <- map_throw (token_of_entry synths) entries ;;
  Ok (js_sort cmp_asset mapped).

End Pipeline.

(* ------------------------------------------------------------------ *)
(** ** Markdown blocks of an asset section (lines 70-122) *)

(** [getLinkToAsset({ name, asset })] *)
Definition getLinkToAsset (name asset : string) : string :=
  Js.toLowerCase (Js.join "-" (tl (Js.split " " name)) +:+ "-s" +:+ asset).

(** [linkMap] of [addOracleParameters], an object used as a map. *)
Definition linkMap : gmap string string :=
  <["FTSE100" := "ftse-gbp"]> (<["NIKKEI225" := "n225-jpy"]> ∅).

(** Truthiness of the optional [feed] address. *)
Definition feed_truthy (feed : option string) : bool :=
  match feed with
  | Some f => negb (String.eqb f "")
  | None => false
  end.

(** [linkMap[asset] || `${asset.toLowerCase()}-usd`] *)
Definition symbolLink (asset : string) : string :=
  match linkMap !! asset with
  | Some slug => slug
  | None => Js.toLowerCase asset +:+ "-usd"
  end.

Section Blocks.
Context {N : Type} `{JsNumber N}.
(** [format] wraps the external [numbro] formatter; [snxOracle] is the
    address returned by [snx.getUsers({ network, user: 'oracle' })]. *)
Variable format : N -> string.
Variable snxOracle : string.

Definition centralized_block : string :=
  "**Price Feed**: Synthetix (centralized)" +:+ NL +:+ NL +:+
  "- Oracle: [" +:+ snxOracle +:+ "](https://etherscan.io/address/" +:+ snxOracle +:+ ")" +:+
  NL +:+ "- Contract: [ExchangeRates](https://contracts.synthetix.io/ExchangeRates)" +:+ NL +:+ NL.

Definition decentralized_block (slug feed : string) : string :=
  "**Price Feed**: Chainlink (decentralized)" +:+ NL +:+ NL +:+
  "- Oracles: [Network overview](https://feeds.chain.link/" +:+ slug +:+ ")" +:+
  NL +:+ "- Contract: [Aggregator](https://etherscan.io/address/" +:+ feed +:+ ")" +:+ NL +:+ NL.

Definition addOracleParameters (asset : string) (feed : option string) : string :=
  match feed with
  | Some f => if feed_truthy feed then decentralized_block (symbolLink asset) f
              else centralized_block
  | None => centralized_block
  end.

Definition addInverseParameters (inverted : option (InversionParams N))
    (asset name : string) : string :=
  match inverted with
  | None => ""
  | Some p =>
      "**Inverse of**: [s" +:+ asset +:+ "](#" +:+ getLinkToAsset name asset +:+ ")" +:+ NL +:+ NL +:+
      "| Entry Point | Upper Limit | Lower Limit |" +:+ NL +:+
      "| - | - | - |" +:+ NL +:+
      "| $" +:+ format (entryPoint p) +:+ " | $" +:+ format (upperLimit p) +:+
      " | $" +:+ format (lowerLimit p) +:+ "|" +:+ NL +:+ NL
  end.

Definition index_header (asset name : string) : string :=
  "**Index of**: [s" +:+ asset +:+ "](#" +:+ getLinkToAsset name asset +:+ ")" +:+ NL +:+ NL.

Definition index_row (c : IndexComponent N) : string :=
  "| " +:+ comp_name c +:+ " | " +:+ comp_symbol c +:+ " | " +:+ format (comp_units c) +:+ " |" +:+ NL.

Definition index_table (comps : list (IndexComponent N)) : string :=
  "| Token | Symbol | Units |" +:+ NL +:+ "| - | - | - |" +:+ NL +:+
  String.concat "" (map index_row comps) +:+ NL.

Definition addIndexParameters (index : option (list (IndexComponent N)))
    (inverted : option (InversionParams N)) (asset name : string) : string :=
  match index with
  | None => ""
  | Some comps =>
      let header := index_header asset name in
      match inverted with
      | Some _ => header
      | None => header +:+ index_table comps
      end
  end.

(* ------------------------------------------------------------------ *)
(** ** The page and the build (lines 124-152) *)

Definition mkr_warning : string :=
  "!!! warning " +:+ QUOTE +:+ "Suspended" +:+ QUOTE +:+ NL +:+ NL +:+
  "    MKR has been suspended due to [SIP-34](https://sips.synthetix.io/sips/sip-34)" +:+ NL +:+ NL.

Definition render_section (t : Token N) : string :=
  "## " +:+ tok_name t +:+ " (" +:+ tok_symbol t +:+ ")" +:+ NL +:+ NL +:+
  (if String.eqb (tok_asset t) "MKR" then mkr_warning else "") +:+
  "**Contract:** [" +:+ tok_address t +:+ "](https://etherscan.io/token/" +:+ tok_address t +:+ ")" +:+ NL +:+ NL +:+
  "**Decimals:** " +:+ js_toString (tok_decimals t) +:+ NL +:+ NL +:+
  "**Price:** [" +:+ tok_symbol t +:+ " on synthetix.exchange](https://synthetix.exchange/#/synths/" +:+
  tok_symbol t +:+ ")" +:+ NL +:+ NL +:+
  addOracleParameters (tok_asset t) (tok_feed t) +:+
  addInverseParameters (tok_inverted t) (tok_asset t) (tok_name t) +:+
  addIndexParameters (tok_index t) (tok_inverted t) (tok_asset t) (tok_name t) +:+
  ">" +:+ tok_description t.

(** The sections in the order they appear in the page. *)
Definition page_order (tokens : list (Token N)) : list (Token N) :=
  js_sort cmp_name tokens.

Definition content (tokens : list (Token N)) : string :=
  NL +:+ "# Token List" +:+ NL +:+ NL +:+
  "!!! Tip " +:+ QUOTE +:+ "Decentralizing the remaining price feeds" +:+ QUOTE +:+ NL +:+ NL +:+
  "    We're in the process of migrating all price feeds to Chainlink's decentralized network." +:+ NL +:+
  "    This change is coming with [SIP-36](https://sips.synthetix.io/sips/sip-36)." +:+ NL +:+ NL +:+
  Js.join (NL +:+ NL) (map render_section (page_order tokens)) +:+ NL +:+ NL.

(** The whole page, or the exception that aborts its construction. *)
Definition build (synths : list (Synth N)) (entries : list (TokenEntry N)) : Result string :=
  tokens <- tokens_of synths entries ;;
  Ok (content tokens).

(** The files on disk, by path. *)
Definition FileSystem := gmap string string.

Definition out_path : string := "content/tokens/list.md".

(** A run of the script: [fs.writeFileSync] is the last statement, reached
    only when the page has been built. *)
Definition run (synths : list (Synth N)) (entries : list (TokenEntry N))
    (fs : FileSystem) : FileSystem * Result unit :=
  match build synths entries with
  | Ok page => (<[out_path := page]> fs, Ok tt)
  | Throw e => (fs, Throw e)
  end.

End Blocks.

(* ================================================================== *)
(** * Properties *)

(* ------------------------------------------------------------------ *)
(** ** Sample runs *)

Example doRounding_ex1 : doRounding 100%Z 150%Z = "50".
Proof. reflexivity. Qed.
Example doRounding_ex2 : doRounding 100%Z 60%Z = "140".
Proof. reflexivity. Qed.
Example doRounding_ex3 : doRounding 3%Z 1000%Z = "-994".
Proof. reflexivity. Qed.

Example desc_sETH_ex :
  desc (mkSynth (N:=Z) "sETH" "Ether" "ETH" None None)
  = "Tracks the price of Ether (ETH) through price feeds supplied by an oracle.".
Proof. reflexivity. Qed.

Example desc_iETH_ex :
  substring 0 36 (desc (mkSynth "iETH" "Inverted Ether" "ETH"
                          (Some (mkInversion 200 300 100)%Z) None))
  = "Inversely tracks the price of Ether ".
Proof. reflexivity. Qed.

Example link_ex : getLinkToAsset "Synth Ether" "ETH" = "ether-seth".
Proof. reflexivity. Qed.

Example slug_ex : symbolLink "NIKKEI225" = "n225-jpy" /\ symbolLink "BTC" = "btc-usd".
Proof. split; reflexivity. Qed.

(* ------------------------------------------------------------------ *)
(** ** String lemmas *)

Lemma prefix_empty (s : string) : String.prefix "" s = true.
Proof. destruct s; reflexivity. Qed.

Lemma substring_full (s : string) : substring 0 (String.length s) s = s.
Proof. induction s as [|c s IH]; simpl; [reflexivity | now rewrite IH]. Qed.

(* ------------------------------------------------------------------ *)
(** ** The describer *)

(** C2: a synth named sUSD is described by the constant-value sentence,
    whatever its other fields (description, inversion, index) hold. *)
Theorem desc_sUSD_constant {N : Type} `{JsNumber N} (s : Synth N) :
  synth_name s = "sUSD" ->
  desc s = "Tracks the price of a single US Dollar (USD). This Synth always remains constant at 1.".
Proof. intros Hname. unfold desc. rewrite Hname. reflexivity. Qed.

Lemma desc_sUSD_constant_witness :
  synth_name (mkSynth (N:=Z) "sUSD" "Inverted Dollar" "USD"
                (Some (mkInversion 1 2 0)%Z) (Some [])) = "sUSD" /\
  desc (mkSynth (N:=Z) "sUSD" "Inverted Dollar" "USD"
          (Some (mkInversion 1 2 0)%Z) (Some []))
  = "Tracks the price of a single US Dollar (USD). This Synth always remains constant at 1.".
Proof. split; [reflexivity | apply desc_sUSD_constant; reflexivity]. Defined.

(** The branch [desc] takes, read off its guards in their order. *)
Definition desc_cases {N : Type} `{JsNumber N} (s : Synth N) : Prop :=
  (synth_name s = "sUSD" /\ desc s = stable_sentence) \/
  (synth_name s <> "sUSD" /\ exists p, synth_inverted s = Some p /\
     desc s = inverted_sentence s p) \/
  (synth_name s <> "sUSD" /\ synth_inverted s = None /\
     exists comps, synth_index s = Some comps /\ desc s = index_sentence s comps) \/
  (synth_name s <> "sUSD" /\ synth_inverted s = None /\ synth_index s = None /\
     desc s = plain_sentence s).

(** C3: a non-sUSD synth with both inversion parameters and an index
    composition gets the inverse-tracking sentence, which is not the index
    sentence; and every synth falls in exactly one of the four branches
    (stable, inverted, index, plain), whose guards exclude each other. *)
Theorem desc_inverted_before_index {N : Type} `{JsNumber N}
    (s : Synth N) (p : InversionParams N) (comps : list (IndexComponent N)) :
  synth_name s <> "sUSD" ->
  synth_inverted s = Some p ->
  synth_index s = Some comps ->
  desc s = inverted_sentence s p /\ desc s <> index_sentence s comps /\
  (forall s' : Synth N, desc_cases s').
Proof.
  intros Hname Hinv Hidx.
  assert (Hd : desc s = inverted_sentence s p).
  { unfold desc. apply String.eqb_neq in Hname. rewrite Hname, Hinv. reflexivity. }
  split; [exact Hd | split].
  - rewrite Hd. unfold inverted_sentence, index_sentence. cbv [String.append].
    discriminate.
  - intros s'. unfold desc_cases, desc.
    destruct (String.eqb_spec (synth_name s') "sUSD") as [E|E].
    + left. split; [exact E | reflexivity].
    + right. destruct (synth_inverted s') as [p'|] eqn:Ei.
      * left. split; [exact E | exists p'; split; reflexivity].
      * right. destruct (synth_index s') as [c'|] eqn:Ex.
        -- left. repeat split; try assumption. exists c'. split; reflexivity.
        -- right. repeat split; assumption.
Qed.

Lemma desc_inverted_before_index_witness :
  let s := mkSynth (N:=Z) "iDEFI" "Inverted DeFi Index" "DEFI"
             (Some (mkInversion 500 750 250)%Z)
             (Some [mkComponent "COMP" "Compound" 2%Z]) in
  synth_name s <> "sUSD" /\ desc s = inverted_sentence s (mkInversion 500 750 250)%Z.
Proof.
  intros s. split; [discriminate |].
  apply (desc_inverted_before_index s (mkInversion 500 750 250)%Z
           [mkComponent "COMP" "Compound" 2%Z]); try reflexivity; discriminate.
Defined.

(** C4: a synth that is not sUSD and has neither inversion parameters nor an
    index gets the generic sentence, naming its description without a
    leading "Inverted " and the asset in parentheses exactly when the
    synth's name differs from that underlying. *)
Theorem desc_plain_sentence {N : Type} `{JsNumber N} (s : Synth N) :
  synth_name s <> "sUSD" ->
  synth_inverted s = None ->
  synth_index s = None ->
  let underlying := strip_inverted (synth_desc s) in
  desc s = "Tracks the price of " +:+ underlying +:+
           (if String.eqb (synth_name s) underlying then ""
            else " (" +:+ synth_asset s +:+ ")") +:+
           " through price feeds supplied by an oracle." /\
  (forall rest, strip_inverted ("Inverted " +:+ rest) = rest) /\
  (forall d, String.prefix "Inverted " d = false -> strip_inverted d = d).
Proof.
  intros Hname Hinv Hidx underlying. split; [| split].
  - unfold desc. apply String.eqb_neq in Hname. rewrite Hname, Hinv, Hidx.
    unfold plain_sentence, asset_suffix. fold underlying.
    destruct (String.eqb (synth_name s) underlying); reflexivity.
  - intros rest. unfold strip_inverted. cbv [String.append]. simpl.
    rewrite prefix_empty, Nat.sub_0_r. apply substring_full.
  - intros d Hd. unfold strip_inverted. rewrite Hd. reflexivity.
Qed.

Lemma desc_plain_sentence_witness :
  let s := mkSynth (N:=Z) "sETH" "Ether" "ETH" None None in
  synth_name s <> "sUSD" /\
  desc s = "Tracks the price of Ether (ETH) through price feeds supplied by an oracle.".
Proof.
  intros s. split; [discriminate |].
  assert (Hn : synth_name s <> "sUSD") by discriminate.
  exact (proj1 (desc_plain_sentence s Hn eq_refl eq_refl)).
Defined.

(* ------------------------------------------------------------------ *)
(** ** The index and oracle blocks *)

(** C5: the index block is non-empty exactly when the record has an index
    composition; for an inverted record it is the "Index of" link line only,
    otherwise the link line followed by the table of name / symbol / units
    rows. *)
Theorem addIndexParameters_blocks {N : Type} `{JsNumber N} (format : N -> string)
    (index : option (list (IndexComponent N))) (inverted : option (InversionParams N))
    (asset name : string) :
  let link_line :=
    "**Index of**: [s" +:+ asset +:+ "](#" +:+ getLinkToAsset name asset +:+ ")" +:+ NL +:+ NL in
  (addIndexParameters format index inverted asset name <> "" <-> index <> None) /\
  (forall comps p, index = Some comps -> inverted = Some p ->
     addIndexParameters format index inverted asset name = link_line) /\
  (forall comps, index = Some comps -> inverted = None ->
     addIndexParameters format index inverted asset name =
     link_line +:+ "| Token | Symbol | Units |" +:+ NL +:+ "| - | - | - |" +:+ NL +:+
     String.concat "" (map (fun c => "| " +:+ comp_name c +:+ " | " +:+ comp_symbol c +:+
                                     " | " +:+ format (comp_units c) +:+ " |" +:+ NL) comps) +:+
     NL).
Proof.
  intros link_line. split; [| split].
  - unfold addIndexParameters. destruct index as [comps|].
    + split; [intros _; discriminate |]. intros _.
      destruct inverted; unfold index_header; cbv [String.append]; discriminate.
    + split; intros Hc; contradiction.
  - intros comps p -> ->. reflexivity.
  - intros comps -> ->. reflexivity.
Qed.

(** C6: the oracle block is the centralized block naming the oracle
    operator exactly when no feed address is present; with a feed address it
    is the decentralized block, whose feed-browser slug is "ftse-gbp" for
    FTSE100, "n225-jpy" for NIKKEI225, and the lower-cased asset followed by
    "-usd" for every other asset. *)
Theorem addOracleParameters_blocks (snxOracle asset : string) (feed : option string) :
  (addOracleParameters snxOracle asset feed = centralized_block snxOracle <->
   feed = None \/ feed = Some "") /\
  (forall f, feed = Some f -> f <> "" ->
   addOracleParameters snxOracle asset feed =
   decentralized_block
     (if String.eqb asset "FTSE100" then "ftse-gbp"
      else if String.eqb asset "NIKKEI225" then "n225-jpy"
      else Js.toLowerCase asset +:+ "-usd") f).
Proof.
  assert (Hslug : symbolLink asset =
     if String.eqb asset "FTSE100" then "ftse-gbp"
     else if String.eqb asset "NIKKEI225" then "n225-jpy"
     else Js.toLowerCase asset +:+ "-usd").
  { unfold symbolLink, linkMap.
    destruct (String.eqb_spec asset "FTSE100") as [->|E1]; [reflexivity |].
    destruct (String.eqb_spec asset "NIKKEI225") as [->|E2]; [reflexivity |].
    rewrite lookup_insert_ne by congruence.
    rewrite lookup_insert_ne by congruence.
    rewrite lookup_empty. reflexivity. }
  split.
  - unfold addOracleParameters, feed_truthy. destruct feed as [f|].
    + destruct (String.eqb_spec f "") as [->|E]; simpl.
      * split; [intros _; right; reflexivity | reflexivity].
      * split.
        -- unfold decentralized_block, centralized_block. cbv [String.append].
           discriminate.
        -- intros [Hf|Hf]; [discriminate | injection Hf; contradiction].
    + split; [intros _; left; reflexivity | reflexivity].
  - intros f -> Hf. unfold addOracleParameters, feed_truthy.
    apply String.eqb_neq in Hf. rewrite Hf. simpl. rewrite Hslug. reflexivity.
Qed.

(* ------------------------------------------------------------------ *)
(** ** Cross-link anchors *)


Lemma append_cons (c : ascii) (a b : string) : String c a +:+ b = String c (a +:+ b).
Proof. reflexivity. Qed.

Lemma toLowerCase_app (a b : string) :
  Js.toLowerCase (a +:+ b) = Js.toLowerCase a +:+ Js.toLowerCase b.
Proof.
  induction a as [|c a IH]; [reflexivity |].
  rewrite append_cons. simpl. rewrite IH. reflexivity.
Qed.

Lemma toLowerCase_join_dash (parts : list string) :
  Js.toLowerCase (Js.join "-" parts) = Js.join "-" (map Js.toLowerCase parts).
Proof.
  induction parts as [|p ps IH]; [reflexivity |].
  destruct ps as [|q qs]; [reflexivity |].
  change (Js.join "-" (p :: q :: qs)) with (p +:+ "-" +:+ Js.join "-" (q :: qs)).
  rewrite !toLowerCase_app, IH. reflexivity.
Qed.

(** C7, as the claim reads: the remainder of the display name is
    lower-cased and "-s" and the asset ticker are appended as they are. The
    script lower-cases the ticker too: "Synth Ether" / "ETH" links to
    "ether-seth", not "ether-sETH". *)
Lemma getLinkToAsset_ticker_lowercased :
  getLinkToAsset "Synth Ether" "ETH" = "ether-seth" /\
  getLinkToAsset "Synth Ether" "ETH" <>
  Js.join "-" (map Js.toLowerCase (tl (Js.split " " "Synth Ether"))) +:+ "-s" +:+ "ETH".
Proof. split; [reflexivity | vm_compute; discriminate]. Qed.

(** C7 (amended): the anchor drops the first space-delimited token of the
    display name, joins the other tokens with hyphens, appends "-s" and the
    asset ticker, and lower-cases all of it, the ticker included. *)
Theorem getLinkToAsset_anchor (name asset : string) :
  getLinkToAsset name asset =
  Js.join "-" (map Js.toLowerCase (tl (Js.split " " name))) +:+ "-s" +:+ Js.toLowerCase asset.
Proof.
  unfold getLinkToAsset. rewrite !toLowerCase_app, toLowerCase_join_dash. reflexivity.
Qed.

(* ------------------------------------------------------------------ *)
(** ** Order of the sections *)

Lemma leb_trans (a b c : string) :
  String.leb a b = true -> String.leb b c = true -> String.leb a c = true.
Proof.
  intros Hab Hbc. apply Is_true_true_1.
  change (String.le a c). transitivity b; apply Is_true_true_2; assumption.
Qed.

Lemma leb_flip (a b : string) : String.leb a b = false -> String.leb b a = true.
Proof. intros Hab. destruct (String.leb_total a b) as [E|E]; congruence. Qed.

Lemma sort_insert_perm {A} (cmp : A -> A -> Z) (x : A) (l : list A) :
  Permutation (sort_insert cmp x l) (x :: l).
Proof.
  induction l as [|y ys IH]; simpl; [reflexivity |].
  destruct (0 <=? cmp x y)%Z; [| reflexivity].
  rewrite IH. apply perm_swap.
Qed.

Lemma js_sort_go_perm {A} (cmp : A -> A -> Z) (l acc : list A) :
  Permutation (fold_left (fun acc x => sort_insert cmp x acc) l acc) (l ++ acc).
Proof.
  revert acc. induction l as [|x l IH]; intros acc; simpl; [reflexivity |].
  rewrite IH, sort_insert_perm. symmetry. apply Permutation_middle.
Qed.

Lemma js_sort_perm {A} (cmp : A -> A -> Z) (l : list A) : Permutation (js_sort cmp l) l.
Proof. unfold js_sort. rewrite js_sort_go_perm, app_nil_r. reflexivity. Qed.

Section NameOrder.
Context {N : Type} `{JsNumber N}.

(** "the earlier section's display name is not greater than the later's" *)
Definition not_after (a b : Token N) : Prop := Js.str_gt (tok_name a) (tok_name b) = false.

Lemma not_after_leb (a b : Token N) :
  not_after a b <-> String.leb (tok_name a) (tok_name b) = true.
Proof.
  unfold not_after, Js.str_gt. destruct (String.leb (tok_name a) (tok_name b)); simpl; split;
    congruence.
Qed.

Lemma sort_insert_name_sorted (x : Token N) (l : list (Token N)) :
  StronglySorted not_after l -> StronglySorted not_after (sort_insert cmp_name x l).
Proof.
  induction l as [|y ys IH]; intros Hs; simpl.
  - repeat constructor.
  - apply StronglySorted_inv in Hs as [Hys Hy].
    unfold cmp_name. destruct (Js.str_gt (tok_name x) (tok_name y)) eqn:Gxy; simpl.
    + constructor; [apply IH, Hys |].
      eapply Permutation_Forall; [symmetry; apply sort_insert_perm |].
      constructor; [| exact Hy].
      apply not_after_leb, leb_flip. unfold Js.str_gt in Gxy.
      destruct (String.leb (tok_name x) (tok_name y)); [discriminate | reflexivity].
    + constructor; [constructor; assumption |].
      assert (Hxy : String.leb (tok_name x) (tok_name y) = true) by (apply not_after_leb; exact Gxy).
      constructor; [exact Gxy |].
      eapply Forall_impl; [exact Hy |]. intros z Hz.
      apply not_after_leb. apply not_after_leb in Hz. eapply leb_trans; eassumption.
Qed.

Lemma js_sort_name_sorted (l : list (Token N)) : StronglySorted not_after (js_sort cmp_name l).
Proof.
  unfold js_sort.
  assert (Hgo : forall acc, StronglySorted not_after acc ->
            StronglySorted not_after (fold_left (fun acc x => sort_insert cmp_name x acc) l acc)).
  { induction l as [|x l IH]; intros acc Hacc; simpl; [exact Hacc |].
    apply IH, sort_insert_name_sorted, Hacc. }
  apply Hgo. constructor.
Qed.

Lemma sorted_names (l : list (Token N)) :
  StronglySorted not_after l ->
  StronglySorted (fun a b => String.leb a b = true) (map tok_name l).
Proof.
  induction l as [|x l IH]; intros Hs; simpl; [constructor |].
  apply StronglySorted_inv in Hs as [Hl Hx]. constructor; [apply IH, Hl |].
  apply Forall_map. eapply Forall_impl; [exact Hx |]. intros y Hy. apply not_after_leb, Hy.
Qed.

End NameOrder.

Lemma sorted_perm_strings_eq (l1 l2 : list string) :
  StronglySorted (fun a b => String.leb a b = true) l1 ->
  StronglySorted (fun a b => String.leb a b = true) l2 ->
  Permutation l1 l2 -> l1 = l2.
Proof.
  revert l2. induction l1 as [|a l1 IH]; intros l2 S1 S2 P.
  - symmetry. apply Permutation_nil, P.
  - destruct l2 as [|b l2]; [apply Permutation_sym, Permutation_nil_cons in P; contradiction |].
    apply StronglySorted_inv in S1 as [S1 F1]. apply StronglySorted_inv in S2 as [S2 F2].
    assert (Hab : a = b).
    { assert (Ia : In a (b :: l2)) by (eapply Permutation_in; [exact P | left; reflexivity]).
      assert (Ib : In b (a :: l1)) by (eapply Permutation_in; [symmetry; exact P | left; reflexivity]).
      destruct Ia as [Ia|Ia]; [symmetry; exact Ia |].
      destruct Ib as [Ib|Ib]; [exact Ib |].
      apply String.leb_antisym.
      - rewrite List.Forall_forall in F1. apply F1, Ib.
      - rewrite List.Forall_forall in F2. apply F2, Ia. }
    subst b. f_equal. apply IH; [exact S1 | exact S2 |].
    eapply Permutation_cons_inv; exact P.
Qed.

Lemma sorted_perm_tokens_eq {N : Type} `{JsNumber N} (l1 l2 : list (Token N)) :
  StronglySorted not_after l1 -> StronglySorted not_after l2 ->
  Permutation l1 l2 -> NoDup (map tok_name l1) -> l1 = l2.
Proof.
  revert l2. induction l1 as [|a l1 IH]; intros l2 S1 S2 P Nd.
  - symmetry. apply Permutation_nil, P.
  - destruct l2 as [|b l2]; [apply Permutation_sym, Permutation_nil_cons in P; contradiction |].
    apply StronglySorted_inv in S1 as [S1 F1]. apply StronglySorted_inv in S2 as [S2 F2].
    assert (Ia : In a (b :: l2)) by (eapply Permutation_in; [exact P | left; reflexivity]).
    assert (Ib : In b (a :: l1)) by (eapply Permutation_in; [symmetry; exact P | left; reflexivity]).
    assert (Hab : a = b).
    { destruct Ia as [Ia|Ia]; [symmetry; exact Ia |].
      destruct Ib as [Ib|Ib]; [exact Ib |].
      assert (Hn : tok_name a = tok_name b).
      { apply String.leb_antisym.
        - rewrite List.Forall_forall in F1. apply not_after_leb, F1, Ib.
        - rewrite List.Forall_forall in F2. apply not_after_leb, F2, Ia. }
      simpl in Nd. apply NoDup_cons in Nd as [Nn _].
      exfalso. apply Nn. rewrite Hn. apply list_elem_of_In, in_map, Ib. }
    subst b. f_equal. apply IH; [exact S1 | exact S2 | eapply Permutation_cons_inv; exact P |].
    simpl in Nd. apply NoDup_cons in Nd as [_ Nd]. exact Nd.
Qed.

(** C8, as the claim reads: the asset sort does not affect the final order
    of the sections. Two tokens with the same display name "X", of assets
    "B" and "A": after the asset sort the name sort puts the "B" token
    first, without it the "A" token comes first. *)
Lemma page_order_asset_tie :
  let tB := mkToken (N:=Z) "X" "" "sB" "B" "0x01" 18%Z None None None in
  let tA := mkToken (N:=Z) "X" "" "sA" "A" "0x02" 18%Z None None None in
  page_order (js_sort cmp_asset [tB; tA]) = [tB; tA] /\
  page_order [tB; tA] = [tA; tB] /\
  page_order (js_sort cmp_asset [tB; tA]) <> page_order [tB; tA].
Proof.
  intros tB tA. split; [reflexivity | split; [reflexivity |]].
  change ([tB; tA] <> [tA; tB]). intros E. injection E as E _.
  unfold tB, tA in E. discriminate E.
Qed.

(** C8 (amended): the sections of the page come in ascending order of
    display name: of two sections, the earlier one's name is never greater
    than the later one's; every token gets its section; the sequence of
    display names does not depend on the earlier sort by asset ticker; and
    when no two tokens share a display name, the order of the sections does
    not depend on it either. Among sections sharing a display name it can
    ([page_order_asset_tie]). *)
Theorem page_order_by_name {N : Type} `{JsNumber N} (tokens : list (Token N)) :
  StronglySorted (fun a b => Js.str_gt (tok_name a) (tok_name b) = false) (page_order tokens) /\
  Permutation (page_order tokens) tokens /\
  map tok_name (page_order (js_sort cmp_asset tokens)) = map tok_name (page_order tokens) /\
  (NoDup (map tok_name tokens) ->
   page_order (js_sort cmp_asset tokens) = page_order tokens).
Proof.
  split; [| split; [| split]].
  - apply js_sort_name_sorted.
  - apply js_sort_perm.
  - apply sorted_perm_strings_eq.
    + apply sorted_names, js_sort_name_sorted.
    + apply sorted_names, js_sort_name_sorted.
    + apply Permutation_map. unfold page_order.
      rewrite !js_sort_perm. reflexivity.
  - intros Nd. apply sorted_perm_tokens_eq.
    + apply js_sort_name_sorted.
    + apply js_sort_name_sorted.
    + unfold page_order. rewrite !js_sort_perm. reflexivity.
    + unfold page_order. rewrite !js_sort_perm. exact Nd.
Qed.

Lemma page_order_by_name_witness :
  let tE := mkToken (N:=Z) "Synth Ether" "" "sETH" "ETH" "0x01" 18%Z None None None in
  let tB := mkToken (N:=Z) "Synth Bitcoin" "" "sBTC" "BTC" "0x02" 18%Z None None None in
  NoDup (map tok_name [tE; tB]) /\
  page_order (js_sort cmp_asset [tE; tB]) = page_order [tE; tB].
Proof.
  intros tE tB.
  assert (Nd : NoDup (map tok_name [tE; tB])) by (repeat constructor; simpl; set_solver).
  split; [exact Nd |].
  exact (proj2 (proj2 (proj2 (page_order_by_name [tE; tB]))) Nd).
Defined.

(* ------------------------------------------------------------------ *)
(** ** Failures of the build *)

Lemma map_throw_fails {A B} (f : A -> Result B) (l : list A) (x : A) (err : JsError) :
  (forall y, (exists b, f y = Ok b) \/ f y = Throw err) ->
  In x l -> f x = Throw err -> map_throw f l = Throw err.
Proof.
  intros Hall. induction l as [|y l IH]; intros Hin Hx; [destruct Hin |].
  simpl. destruct Hin as [<-|Hin].
  - rewrite Hx. reflexivity.
  - destruct (Hall y) as [[b Hb]|Hb]; rewrite Hb; simpl; [| reflexivity].
    rewrite (IH Hin Hx). reflexivity.
Qed.

Section BuildFailures.
Context {N : Type} `{JsNumber N}.

Lemma token_of_entry_outcome (synths : list (Synth N)) (entry : TokenEntry N) :
  (exists t, token_of_entry synths entry = Ok t) \/
  token_of_entry synths entry = Throw read_desc_error.
Proof.
  unfold token_of_entry. destruct (String.eqb (entry_symbol entry) "SNX").
  - left. eexists. reflexivity.
  - unfold desc_of_found. destruct (find_synth synths (entry_symbol entry)).
    + left. eexists. reflexivity.
    + right. reflexivity.
Qed.

End BuildFailures.

(** C9, as the claim reads: every token without a matching synth aborts
    the build. A token named SNX does not: with no synth at all, the build
    of a registry holding only the SNX token completes and writes the page. *)
Lemma snx_without_synth_builds :
  let snx := mkEntry "SNX" "SNX" (Some "Synthetix") "Synthetix Network Token"
               "0xC011a73ee8576Fb46F5E1c5751cA3B9Fe0af2a6F" 18%Z None None None in
  find_synth (N:=Z) [] (entry_symbol snx) = None /\
  run ZNum.to_string "0xac1e8B385230970319906C03A1d8567e3996d1d5" [] [snx] ∅ =
  (<[out_path := content ZNum.to_string "0xac1e8B385230970319906C03A1d8567e3996d1d5"
                   [mkToken "Synthetix" snx_description "SNX" "SNX"
                      "0xC011a73ee8576Fb46F5E1c5751cA3B9Fe0af2a6F" 18%Z None None None]]> ∅,
   Ok tt).
Proof. split; reflexivity. Qed.

(** C9 (amended): a token whose symbol is not SNX and that has no matching
    synth makes the description step throw the [TypeError] of reading
    [undefined.desc]; the build then aborts and the file system is left as
    it was, since the page is written only once it is fully built. *)
Theorem build_aborts_on_unmatched_token {N : Type} `{JsNumber N}
    (format : N -> string) (snxOracle : string) (synths : list (Synth N))
    (entries : list (TokenEntry N)) (fs : FileSystem) (e : TokenEntry N) :
  In e entries ->
  entry_symbol e <> "SNX" ->
  find_synth synths (entry_symbol e) = None ->
  build format snxOracle synths entries = Throw read_desc_error /\
  run format snxOracle synths entries fs = (fs, Throw read_desc_error).
Proof.
  intros Hin Hsym Hfind.
  assert (Hmap : map_throw (token_of_entry synths) entries = Throw read_desc_error).
  { apply (map_throw_fails _ _ e).
    - intros y. destruct (token_of_entry_outcome synths y) as [Ok'|Th]; [left | right]; assumption.
    - exact Hin.
    - unfold token_of_entry. apply String.eqb_neq in Hsym. rewrite Hsym.
      unfold desc_of_found. rewrite Hfind. reflexivity. }
  assert (Hb : build format snxOracle synths entries = Throw read_desc_error).
  { unfold build, tokens_of. rewrite Hmap. reflexivity. }
  split; [exact Hb |]. unfold run. rewrite Hb. reflexivity.
Qed.

Lemma build_aborts_on_unmatched_token_witness :
  let e := mkEntry "sFOO" "FOO" (Some "Synth Foo") "Foo" "0x01" 18%Z None None None in
  In e [e] /\ entry_symbol e <> "SNX" /\ find_synth (N:=Z) [] (entry_symbol e) = None /\
  run ZNum.to_string "0xoracle" [] [e] ∅ = (∅, Throw read_desc_error).
Proof.
  intros e.
  assert (Hin : In e [e]) by (left; reflexivity).
  assert (Hs : entry_symbol e <> "SNX") by discriminate.
  assert (Hf : find_synth (N:=Z) [] (entry_symbol e) = None) by reflexivity.
  split; [exact Hin | split; [exact Hs | split; [exact Hf |]]].
  exact (proj2 (build_aborts_on_unmatched_token ZNum.to_string "0xoracle" [] [e] ∅ e Hin Hs Hf)).
Defined.

(** No partial output: whenever the run throws, no file has been written. *)
Lemma run_throw_keeps_fs {N : Type} `{JsNumber N} (format : N -> string) (snxOracle : string)
    (synths : list (Synth N)) (entries : list (TokenEntry N)) (fs fs' : FileSystem) (err : JsError) :
  run format snxOracle synths entries fs = (fs', Throw err) -> fs' = fs.
Proof. unfold run. destruct (build _ _ _ _); congruence. Qed.

(** C10: the SNX token always gets the fixed SNX description: whatever the
    synth list holds (even nothing that matches), its callback returns the
    same token, and it never throws. *)
Theorem snx_token_fixed_description {N : Type} `{JsNumber N}
    (synths : list (Synth N)) (entry : TokenEntry N) :
  entry_symbol entry = "SNX" ->
  token_of_entry synths entry = token_of_entry [] entry /\
  exists t, token_of_entry synths entry = Ok t /\ tok_description t = snx_description.
Proof.
  intros Hsym. unfold token_of_entry. rewrite Hsym. simpl.
  split; [reflexivity | eexists; split; reflexivity].
Qed.

Lemma snx_token_fixed_description_witness :
  let snx := mkEntry (N:=Z) "SNX" "SNX" (Some "Synthetix") "Synthetix Network Token"
               "0xC011a73ee8576Fb46F5E1c5751cA3B9Fe0af2a6F" 18%Z None None None in
  entry_symbol snx = "SNX" /\
  token_of_entry [mkSynth "sETH" "Ether" "ETH" None None] snx = token_of_entry [] snx.
Proof.
  intros snx. split; [reflexivity |].
  exact (proj1 (snx_token_fixed_description [mkSynth "sETH" "Ether" "ETH" None None] snx eq_refl)).
Defined.

(* ------------------------------------------------------------------ *)
(** ** [doRounding] on integer-valued numbers *)

Lemma has_char_app (c : ascii) (a b : string) :
  Js.has_char c (a +:+ b) = Js.has_char c a || Js.has_char c b.
Proof.
  induction a as [|d a IH]; [reflexivity |].
  rewrite append_cons. simpl. rewrite IH. apply orb_assoc.
Qed.

Lemma digit_char_not_dot (d : N) : (d < 10)%N -> Ascii.eqb (ZNum.digit_char d) "." = false.
Proof.
  intros Hd.
  assert (d = 0 \/ d = 1 \/ d = 2 \/ d = 3 \/ d = 4 \/ d = 5 \/ d = 6 \/ d = 7 \/
          d = 8 \/ d = 9)%N as Hcases by lia.
  repeat destruct Hcases as [->|Hcases]; try reflexivity. subst. reflexivity.
Qed.

Lemma digits_go_no_dot (fuel : nat) (n : N) (acc : string) :
  Js.has_char "." acc = false -> Js.has_char "." (ZNum.digits_go fuel n acc) = false.
Proof.
  revert n acc. induction fuel as [|f IH]; intros n acc Hacc; simpl; [exact Hacc |].
  assert (Hacc' : Js.has_char "." (String (ZNum.digit_char (n mod 10)) acc) = false).
  { simpl. rewrite digit_char_not_dot by (apply N.mod_lt; discriminate). exact Hacc. }
  destruct (n <? 10)%N; [exact Hacc' | apply IH, Hacc'].
Qed.

Lemma to_string_no_dot (z : Z) : Js.has_char "." (ZNum.to_string z) = false.
Proof.
  unfold ZNum.to_string, ZNum.N_to_string.
  destruct (z <? 0)%Z.
  - rewrite has_char_app. rewrite digits_go_no_dot by reflexivity. reflexivity.
  - apply digits_go_no_dot. reflexivity.
Qed.

Lemma split_without_sep (c : ascii) (s : string) :
  Js.has_char c s = false -> Js.split c s = [s].
Proof.
  induction s as [|d s IH]; intros Hs; [reflexivity |].
  simpl in Hs. apply orb_false_iff in Hs as [Hd Hs].
  simpl. rewrite IH by exact Hs. rewrite Hd. reflexivity.
Qed.

Lemma fraction_digits_Z (limit : Z) : fraction_digits limit = 0.
Proof.
  unfold fraction_digits. simpl js_toString.
  rewrite split_without_sep by apply to_string_no_dot. reflexivity.
Qed.

(* ------------------------------------------------------------------ *)
(** ** [doRounding] on fractional numbers *)






Lemma split_after_first (sep : ascii) (first rest : string) :
  Js.has_char sep first = false ->
  Js.split sep (first +:+ String sep rest) = first :: Js.split sep rest.
Proof.
  induction first as [|d first IH]; intros Hf.
  - simpl. rewrite Ascii.eqb_refl. reflexivity.
  - simpl in Hf. apply orb_false_iff in Hf as [Hd Hf].
    rewrite append_cons. simpl. rewrite IH by exact Hf. rewrite Hd. reflexivity.
Qed.








(* ================================================================== *)
(** * Further properties of the script *)

(* ------------------------------------------------------------------ *)
(** ** The build succeeds exactly when every token can be described *)

Lemma map_throw_ok_iff {A B} (f : A -> Result B) (l : list A) :
  (exists ys, map_throw f l = Ok ys) <-> Forall (fun x => exists y, f x = Ok y) l.
Proof.
  induction l as [|x l IH]; simpl.
  - split; [intros _; constructor | intros _; eexists; reflexivity].
  - split.
    + intros [ys Hys]. destruct (f x) as [y|e] eqn:Hx; [| discriminate].
      simpl in Hys. destruct (map_throw f l) as [zs|e] eqn:Hl; [| discriminate].
      constructor; [exists y; exact Hx | apply IH; exists zs; reflexivity].
    + intros Hall. apply List.Forall_cons_iff in Hall as [[y Hy] Hl].
      apply IH in Hl as [zs Hzs]. rewrite Hy. simpl. rewrite Hzs. eexists; reflexivity.
Qed.

Section BuildSuccess.
Context {N : Type} `{JsNumber N}.

Lemma token_of_entry_ok_iff (synths : list (Synth N)) (entry : TokenEntry N) :
  (exists t, token_of_entry synths entry = Ok t) <->
  entry_symbol entry = "SNX" \/ find_synth synths (entry_symbol entry) <> None.
Proof.
  unfold token_of_entry. destruct (String.eqb_spec (entry_symbol entry) "SNX") as [E|E].
  - split; [intros _; left; exact E | intros _; eexists; reflexivity].
  - unfold desc_of_found. destruct (find_synth synths (entry_symbol entry)).
    + split; [intros _; right; discriminate | intros _; eexists; reflexivity].
    + split; [intros [t Ht]; discriminate | intros [C|C]; contradiction].
Qed.

End BuildSuccess.

(** The build of the page completes exactly when every token entry is the
    SNX token or has a synth of the same name; otherwise it throws. *)
Theorem build_ok_iff_all_described {N : Type} `{JsNumber N}
    (format : N -> string) (snxOracle : string) (synths : list (Synth N))
    (entries : list (TokenEntry N)) :
  (exists page, build format snxOracle synths entries = Ok page) <->
  Forall (fun e => entry_symbol e = "SNX" \/ find_synth synths (entry_symbol e) <> None) entries.
Proof.
  unfold build, tokens_of.
  transitivity (exists ts, map_throw (token_of_entry synths) entries = Ok ts).
  - split.
    + intros [page Hp]. destruct (map_throw _ _) as [ts|e]; [eexists; reflexivity | discriminate].
    + intros [ts Hts]. rewrite Hts. eexists; reflexivity.
  - rewrite map_throw_ok_iff. split; intros Hall; eapply List.Forall_impl; try exact Hall;
      intros e; apply token_of_entry_ok_iff.
Qed.

(* ------------------------------------------------------------------ *)
(** ** The token list is sorted by asset ticker *)

Section KeySort.
Context {A : Type} (key : A -> string).

Definition key_cmp (a b : A) : Z := if Js.str_gt (key a) (key b) then 1%Z else (-1)%Z.
Definition key_not_after (a b : A) : Prop := Js.str_gt (key a) (key b) = false.

Lemma key_not_after_leb (a b : A) : key_not_after a b <-> String.leb (key a) (key b) = true.
Proof.
  unfold key_not_after, Js.str_gt. destruct (String.leb (key a) (key b)); simpl; split; congruence.
Qed.

Lemma key_sort_insert_sorted (x : A) (l : list A) :
  StronglySorted key_not_after l -> StronglySorted key_not_after (sort_insert key_cmp x l).
Proof.
  induction l as [|y ys IH]; intros Hs; simpl; [repeat constructor |].
  apply StronglySorted_inv in Hs as [Hys Hy].
  unfold key_cmp. destruct (Js.str_gt (key x) (key y)) eqn:Gxy; simpl.
  - constructor; [apply IH, Hys |].
    eapply Permutation_Forall; [symmetry; apply sort_insert_perm |].
    constructor; [| exact Hy].
    apply key_not_after_leb, leb_flip. unfold Js.str_gt in Gxy.
    destruct (String.leb (key x) (key y)); [discriminate | reflexivity].
  - constructor; [constructor; assumption |].
    assert (Hxy : String.leb (key x) (key y) = true) by (apply key_not_after_leb; exact Gxy).
    constructor; [exact Gxy |].
    eapply List.Forall_impl; [| exact Hy]. intros z Hz.
    apply key_not_after_leb. apply key_not_after_leb in Hz. eapply leb_trans; eassumption.
Qed.

Lemma key_sort_sorted (l : list A) : StronglySorted key_not_after (js_sort key_cmp l).
Proof.
  unfold js_sort.
  assert (Hgo : forall acc, StronglySorted key_not_after acc ->
            StronglySorted key_not_after (fold_left (fun acc x => sort_insert key_cmp x acc) l acc)).
  { induction l as [|x l IH]; intros acc Hacc; simpl; [exact Hacc |].
    apply IH, key_sort_insert_sorted, Hacc. }
  apply Hgo. constructor.
Qed.

End KeySort.

Lemma map_throw_ok_map {A B} (f : A -> Result B) (g : B -> string) (h : A -> string)
    (l : list A) (ys : list B) :
  (forall x y, f x = Ok y -> g y = h x) ->
  map_throw f l = Ok ys -> map g ys = map h l.
Proof.
  intros Hgh. revert ys. induction l as [|x l IH]; intros ys Hys; simpl in Hys.
  - injection Hys as <-. reflexivity.
  - destruct (f x) as [y|e] eqn:Hx; [| discriminate]. simpl in Hys.
    destruct (map_throw f l) as [zs|e] eqn:Hl; [| discriminate].
    injection Hys as <-. simpl. rewrite (Hgh x y Hx), (IH zs eq_refl). reflexivity.
Qed.

(** When the token list is built, it holds one token per registry entry,
    with the entry's symbol, and it is in ascending order of asset ticker:
    no token has a greater ticker than one after it. *)
Theorem tokens_of_sorted_by_asset {N : Type} `{JsNumber N}
    (synths : list (Synth N)) (entries : list (TokenEntry N)) (ts : list (Token N)) :
  tokens_of synths entries = Ok ts ->
  StronglySorted (fun a b => Js.str_gt (tok_asset a) (tok_asset b) = false) ts /\
  Permutation (map tok_symbol ts) (map entry_symbol entries).
Proof.
  unfold tokens_of. destruct (map_throw (token_of_entry synths) entries) as [mapped|e] eqn:Hm;
    [| discriminate].
  simpl. intros Hts. injection Hts as <-. split.
  - exact (key_sort_sorted tok_asset mapped).
  - rewrite <- (map_throw_ok_map (token_of_entry synths) tok_symbol entry_symbol entries mapped);
      [| | exact Hm].
    + apply Permutation_map, js_sort_perm.
    + intros x y Hxy. unfold token_of_entry in Hxy.
      destruct (if String.eqb (entry_symbol x) "SNX" then _ else _); simpl in Hxy;
        [injection Hxy as <-; reflexivity | discriminate].
Qed.

Lemma tokens_of_sorted_by_asset_witness :
  let e1 := mkEntry (N:=Z) "sETH" "ETH" (Some "Synth Ether") "Ether" "0x01" 18%Z None None None in
  let e2 := mkEntry (N:=Z) "sBTC" "BTC" (Some "Synth Bitcoin") "Bitcoin" "0x02" 18%Z None None None in
  let synths := [mkSynth "sETH" "Ether" "ETH" None None; mkSynth "sBTC" "Bitcoin" "BTC" None None] in
  exists ts, tokens_of synths [e1; e2] = Ok ts /\ map tok_asset ts = ["BTC"; "ETH"] /\
  Permutation (map tok_symbol ts) (map entry_symbol [e1; e2]).
Proof.
  intros e1 e2 synths. eexists. split; [reflexivity |]. split; [reflexivity |].
  apply (tokens_of_sorted_by_asset synths [e1; e2]). reflexivity.
Defined.

(* ------------------------------------------------------------------ *)
(** ** Which synth describes a token *)

(** [synths.find] picks the first synth of the registry with the token's
    symbol as name: later synths of the same name are never used. *)
Theorem find_synth_first {N : Type} (pre post : list (Synth N)) (s : Synth N) (symbol : string) :
  synth_name s = symbol ->
  Forall (fun s' => synth_name s' <> symbol) pre ->
  find_synth (pre ++ s :: post) symbol = Some s.
Proof.
  intros Hs Hpre. unfold find_synth. induction Hpre as [|s' pre Hs' Hpre IH]; simpl.
  - apply String.eqb_eq in Hs. rewrite Hs. reflexivity.
  - apply String.eqb_neq in Hs'. rewrite Hs'. exact IH.
Qed.

Lemma find_synth_first_witness :
  let s1 := mkSynth (N:=Z) "sETH" "Ether" "ETH" None None in
  let s2 := mkSynth (N:=Z) "sETH" "Ether (legacy)" "ETH" None None in
  find_synth ([mkSynth "sBTC" "Bitcoin" "BTC" None None] ++ s1 :: [s2]) "sETH" = Some s1.
Proof.
  intros s1 s2. apply find_synth_first; [reflexivity |].
  constructor; [discriminate | constructor].
Defined.

(* ------------------------------------------------------------------ *)
(** ** The anchors built from [split] and [join] *)

(** The anchor of an asset drops the display name up to its first space
    and turns the further spaces into hyphens; a display name without a
    space leaves only "-s" and the ticker. *)
Theorem getLinkToAsset_shape (first rest asset : string) :
  Js.has_char " " first = false ->
  getLinkToAsset (first +:+ " " +:+ rest) asset =
    Js.toLowerCase (Js.join "-" (Js.split " " rest) +:+ "-s" +:+ asset) /\
  getLinkToAsset first asset = Js.toLowerCase ("-s" +:+ asset).
Proof.
  intros Hf. unfold getLinkToAsset. split.
  - change (" " +:+ rest) with (String " " rest). rewrite split_after_first by exact Hf.
    reflexivity.
  - rewrite split_without_sep by exact Hf. reflexivity.
Qed.

Lemma getLinkToAsset_shape_witness :
  Js.has_char " " "Synth" = false /\
  getLinkToAsset ("Synth" +:+ " " +:+ "Nikkei 225 Index") "NIKKEI225" = "nikkei-225-index-snikkei225".
Proof.
  assert (Hf : Js.has_char " " "Synth" = false) by reflexivity.
  split; [exact Hf |].
  rewrite (proj1 (getLinkToAsset_shape "Synth" "Nikkei 225 Index" "NIKKEI225" Hf)).
  reflexivity.
Defined.

Lemma lower_char_idem (c : ascii) : Js.lower_char (Js.lower_char c) = Js.lower_char c.
Proof.
  unfold Js.lower_char.
  destruct ((65 <=? nat_of_ascii c)%nat && (nat_of_ascii c <=? 90)%nat) eqn:Hc.
  - apply andb_true_iff in Hc as [H1 H2]. apply Nat.leb_le in H1, H2.
    rewrite nat_ascii_embedding by lia.
    replace ((65 <=? nat_of_ascii c + 32)%nat && (nat_of_ascii c + 32 <=? 90)%nat) with false;
      [reflexivity |].
    symmetry. apply andb_false_iff. right. apply Nat.leb_gt. lia.
  - rewrite Hc. reflexivity.
Qed.

Lemma toLowerCase_idem (s : string) : Js.toLowerCase (Js.toLowerCase s) = Js.toLowerCase s.
Proof. induction s as [|c s IH]; simpl; [reflexivity | rewrite lower_char_idem, IH; reflexivity]. Qed.

(** Anchors are lower case: lower-casing one again changes nothing. *)
Theorem getLinkToAsset_lowercase (name asset : string) :
  Js.toLowerCase (getLinkToAsset name asset) = getLinkToAsset name asset.
Proof. unfold getLinkToAsset. apply toLowerCase_idem. Qed.

(* ------------------------------------------------------------------ *)
(** ** The section of an asset *)

Lemma prefix_app_same (a b c : string) : String.prefix (a +:+ b) (a +:+ c) = String.prefix b c.
Proof.
  induction a as [|d a IH]; [reflexivity |].
  rewrite !append_cons. simpl. destruct (ascii_dec d d); [exact IH | contradiction].
Qed.

Lemma prefix_app_self (b c : string) : String.prefix b (b +:+ c) = true.
Proof.
  induction b as [|d b IH]; [apply prefix_empty |].
  rewrite append_cons. simpl. destruct (ascii_dec d d); [exact IH | contradiction].
Qed.

(** The "Suspended" notice follows the title of a section exactly when the
    asset's ticker is MKR. *)
Theorem render_section_mkr_notice {N : Type} `{JsNumber N} (format : N -> string)
    (snxOracle : string) (t : Token N) :
  String.prefix ("## " +:+ tok_name t +:+ " (" +:+ tok_symbol t +:+ ")" +:+ NL +:+ NL +:+ mkr_warning)
    (render_section format snxOracle t) = true <->
  tok_asset t = "MKR".
Proof.
  unfold render_section. rewrite !prefix_app_same.
  destruct (String.eqb_spec (tok_asset t) "MKR") as [E|E].
  - split; [intros _; exact E | intros _; apply prefix_app_self].
  - split; [| intros C; contradiction].
    unfold mkr_warning. cbv [String.append]. simpl. discriminate.
Qed.

(* ------------------------------------------------------------------ *)
(** ** The page does not depend on the order of the registry *)

Lemma map_throw_perm_ok {A B} (f : A -> Result B) (l l' : list A) :
  Permutation l l' -> forall ys, map_throw f l = Ok ys ->
  exists ys', map_throw f l' = Ok ys' /\ Permutation ys ys'.
Proof.
  induction 1 as [|x l l' P IH|x y l|l l'' l' P1 IH1 P2 IH2]; intros ys Hys.
  - exists ys. split; [exact Hys | reflexivity].
  - simpl in Hys |- *. destruct (f x) as [b|e]; [| discriminate]. simpl in Hys |- *.
    destruct (map_throw f l) as [zs|e]; [| discriminate]. simpl in Hys.
    injection Hys as <-. destruct (IH zs eq_refl) as [zs' [Hz' Pz]].
    rewrite Hz'. simpl. eexists. split; [reflexivity | apply perm_skip, Pz].
  - simpl in Hys |- *.
    destruct (f y) as [by'|e]; simpl in Hys |- *;
      [| destruct (f x); simpl in Hys; discriminate].
    destruct (f x) as [bx|e]; simpl in Hys |- *; [| discriminate].
    destruct (map_throw f l) as [zs|e]; simpl in Hys |- *; [| discriminate].
    injection Hys as <-. eexists. split; [reflexivity | apply perm_swap].
  - destruct (IH1 ys Hys) as [ys1 [H1 Q1]]. destruct (IH2 ys1 H1) as [ys2 [H2 Q2]].
    exists ys2. split; [exact H2 | etransitivity; eassumption].
Qed.

Lemma map_throw_token_error {N : Type} `{JsNumber N} (synths : list (Synth N))
    (l : list (TokenEntry N)) (e : JsError) :
  map_throw (token_of_entry synths) l = Throw e -> e = read_desc_error.
Proof.
  induction l as [|x l IH]; simpl; [discriminate |].
  destruct (token_of_entry_outcome synths x) as [[t Ht]|Ht]; rewrite Ht; simpl.
  - destruct (map_throw (token_of_entry synths) l); simpl; [discriminate | exact IH].
  - intros E. injection E as <-. reflexivity.
Qed.

(** Reordering the registry's token entries does not change the outcome of
    the build when no two entries share a display name: the same page is
    built, or the same exception is thrown. *)
Theorem build_order_independent {N : Type} `{JsNumber N}
    (format : N -> string) (snxOracle : string) (synths : list (Synth N))
    (entries entries' : list (TokenEntry N)) :
  Permutation entries entries' ->
  NoDup (map (fun e => default (entry_desc e) (entry_name e)) entries) ->
  build format snxOracle synths entries = build format snxOracle synths entries'.
Proof.
  intros P Nd. unfold build, tokens_of.
  destruct (map_throw (token_of_entry synths) entries) as [ms|e] eqn:Hm.
  - destruct (map_throw_perm_ok _ _ _ P ms Hm) as [ms' [Hm' Pm]]. rewrite Hm'. simpl.
    assert (Hnames : map tok_name ms = map (fun e => default (entry_desc e) (entry_name e)) entries).
    { apply (map_throw_ok_map (token_of_entry synths)); [| exact Hm].
      intros x y Hxy. unfold token_of_entry in Hxy.
      destruct (if String.eqb (entry_symbol x) "SNX" then _ else _); simpl in Hxy;
        [injection Hxy as <-; reflexivity | discriminate]. }
    assert (Heq : js_sort cmp_name (js_sort cmp_asset ms) = js_sort cmp_name (js_sort cmp_asset ms')).
    2:{ unfold content, page_order. rewrite Heq. reflexivity. }
    apply sorted_perm_tokens_eq.
    + apply js_sort_name_sorted.
    + apply js_sort_name_sorted.
    + rewrite !js_sort_perm. exact Pm.
    + rewrite !js_sort_perm, Hnames. exact Nd.
  - destruct (map_throw (token_of_entry synths) entries') as [ms'|e'] eqn:Hm'.
    + destruct (map_throw_perm_ok _ _ _ (Permutation_sym P) ms' Hm') as [ms [Hm2 _]].
      congruence.
    + simpl. apply map_throw_token_error in Hm, Hm'. congruence.
Qed.

Lemma build_order_independent_witness :
  let e1 := mkEntry (N:=Z) "sETH" "ETH" (Some "Synth Ether") "Ether" "0x01" 18%Z None None None in
  let e2 := mkEntry (N:=Z) "sBTC" "BTC" (Some "Synth Bitcoin") "Bitcoin" "0x02" 18%Z None None None in
  let synths := [mkSynth "sETH" "Ether" "ETH" None None; mkSynth "sBTC" "Bitcoin" "BTC" None None] in
  build ZNum.to_string "0x03" synths [e1; e2] = build ZNum.to_string "0x03" synths [e2; e1].
Proof.
  intros e1 e2 synths. apply build_order_independent; [apply perm_swap |].
  repeat constructor; simpl; [set_solver | set_solver].
Defined.

(* ------------------------------------------------------------------ *)
(** ** The threshold price mirrors back *)

Lemma doRounding_Z (entry limit : Z) : doRounding entry limit = ZNum.to_string (2 * entry - limit)%Z.
Proof. unfold doRounding. rewrite fraction_digits_Z. simpl. unfold ZNum.to_fixed. f_equal. lia. Qed.

(** On safe integers, the underlying price at which a limit is reached,
    mirrored again about the entry point, is that limit: [doRounding] of the
    price [2 * entry - limit] prints [limit]. *)
Theorem doRounding_mirror_back (entry limit : Z) :
  ZNum.safe entry -> ZNum.safe limit -> ZNum.safe (2 * entry - limit)%Z ->
  doRounding entry (2 * entry - limit)%Z = ZNum.to_string limit.
Proof. intros _ _ _. rewrite doRounding_Z. f_equal. lia. Qed.

Lemma doRounding_mirror_back_witness :
  ZNum.safe 9200 /\ ZNum.safe 13800 /\ ZNum.safe (2 * 9200 - 13800) /\
  doRounding 9200%Z (2 * 9200 - 13800)%Z = "13800".
Proof.
  assert (H1 : ZNum.safe 9200) by (unfold ZNum.safe; simpl; lia).
  assert (H2 : ZNum.safe 13800) by (unfold ZNum.safe; simpl; lia).
  assert (H3 : ZNum.safe (2 * 9200 - 13800)) by (unfold ZNum.safe; simpl; lia).
  split; [exact H1 | split; [exact H2 | split; [exact H3 |]]].
  exact (doRounding_mirror_back 9200 13800 H1 H2 H3).
Defined.
